(** * libkqueue, Windows back end: a shallow embedding of [platform.c]

    The development follows [src/windows/platform.c]: the creation and
    release of the per-kqueue resources ([windows_kqueue_init],
    [windows_kqueue_free]), the timeout conversion and the wait on the
    completion port ([windows_kevent_wait]), and the translation of one
    completion packet into one BSD event ([windows_kevent_copyout]).  The
    peer-close probe of [test/main.c] ([test_peer_close_detection]) is
    embedded as well.

    C integers are [Z] with their wrap-around written out, pointers and
    handles are [Z] with [0] for [NULL], the knotes that are live in
    memory form a [gmap] from addresses to records, and the calls into
    the operating system are answered by explicit oracles. *)

From stdpp Require Import base numbers option list strings gmap.

Local Open Scope Z_scope.

(** ** Machine integers and Win32 constants *)

Module Win32.

(** [DWORD] is an unsigned 32-bit integer; a conversion to it wraps. *)
Definition DWORD_MODULUS : Z := 2 ^ 32.

Definition to_DWORD (z : Z) : Z := z `mod` DWORD_MODULUS.

Definition INFINITE : Z := 0xFFFFFFFF.

Definition WAIT_TIMEOUT : Z := 258.

Definition NULL : Z := 0.

End Win32.

(** ** The BSD event and its constants *)

Record kevent := Kevent {
  ident  : Z;
  filter : Z;   (* short *)
  flags  : Z;   (* unsigned short *)
  fflags : Z;
  data   : Z;
  udata  : Z
}.

Definition EV_ADD      : Z := 0x0001.
Definition EV_DELETE   : Z := 0x0002.
Definition EV_ENABLE   : Z := 0x0004.
Definition EV_DISABLE  : Z := 0x0008.
Definition EV_ONESHOT  : Z := 0x0010.
Definition EV_CLEAR    : Z := 0x0020.
Definition EV_RECEIPT  : Z := 0x0040.
Definition EV_DISPATCH : Z := 0x0080.
Definition EV_ERROR    : Z := 0x4000.
Definition EV_EOF      : Z := 0x8000.

Definition EVFILT_READ   : Z := -1.
Definition EVFILT_WRITE  : Z := -2.
Definition EVFILT_VNODE  : Z := -4.
Definition EVFILT_PROC   : Z := -5.
Definition EVFILT_SIGNAL : Z := -6.
Definition EVFILT_TIMER  : Z := -7.
Definition EVFILT_USER   : Z := -10.

(** The all-zero event: what [memset] leaves in a slot. *)
Definition kevent_zero : kevent := Kevent 0 0 0 0 0 0.

(** The C test [word & bit] of an [if]: true when the result is non-zero. *)
Definition has_flag (word bit : Z) : bool := negb (Z.land word bit =? 0).

(** ** Knotes, filters and the kqueue *)

(** [struct event_buf]: the completion packet ferried from the wait to
    the copyout through the thread-local [iocp_buf]. *)
Record event_buf := EventBuf {
  bytes   : Z;
  key     : Z;
  overlap : Z     (* OVERLAPPED *, in fact the address of a knote *)
}.

(** Modelled from the spec: [struct knote] is declared in [private.h],
    which is not among the sources.  The copyout reads [kn->kev]; the
    enabled/disabled state is the one the data model lists for a knote. *)
Record knote := Knote {
  kev        : kevent;
  kn_enabled : bool
}.

(** Modelled from the spec: [struct filter] is declared in [private.h].
    Only its [kf_copyout] pointer is used here.  The C function receives
    the destination slot, the knote and the packet by address and returns
    an [int]; the model hands it the old content of the slot and of the
    knote and gets back the return value with their new content.  What a
    filter learns from the operating system is taken to arrive with the
    packet. *)
Record filter_ops := FilterOps {
  kf_copyout : kevent -> knote -> event_buf -> Z * kevent * knote
}.

(** [struct kqueue], the fields [platform.c] touches. *)
Record kqueue := Kqueue {
  kq_iocp            : Z;
  kq_synthetic_event : Z;
  kq_loop            : Z;
  kq_filt            : list filter_ops
}.

(** The knotes live in memory, by address. *)
Abbreviation knote_heap := (gmap Z knote).

(** Modelled from the spec: [knote_disable] is defined outside
    [platform.c].  Disabling flips the knote's enabled state and keeps
    its resources. *)
Definition knote_disable (filt : filter_ops) (kn : Z) (h : knote_heap)
    : knote_heap :=
  alter (fun k => Knote (kev k) false) kn h.

(** Modelled from the spec: [knote_delete] is defined outside
    [platform.c].  Deleting removes the knote and tears it down, so its
    address is no longer that of a live knote. *)
Definition knote_delete (filt : filter_ops) (kn : Z) (h : knote_heap)
    : knote_heap :=
  delete kn h.

(** How a call ends: it returns, it calls [abort], or it does something
    C leaves undefined (it follows a pointer to no live object, or it
    indexes outside an array). *)
Inductive outcome (A : Type) : Type :=
| Returned (a : A)
| Aborted
| Undefined.

Arguments Returned {A} a.
Arguments Aborted {A}.
Arguments Undefined {A}.

(** ** Creation and release *)

(** The calls [windows_kqueue_init] and [windows_kqueue_free] make, in
    order.  [Call_knote_delete] and [Call_CloseHandle] are the calls that
    release a knote or a handle. *)
Inductive call :=
| Call_CreateIoCompletionPort
| Call_CreateSemaphore
| Call_filter_register_all
| Call_evt_destroy (loop : Z)
| Call_free_kq
| Call_knote_delete (kn : Z)
| Call_CloseHandle (h : Z).

(** What the environment answers during creation: the two handles, and
    [filter_register_all] (defined outside [platform.c]), which returns an
    [int] and leaves the kqueue with its filter table filled in. *)
Record init_env := InitEnv {
  env_CreateIoCompletionPort : Z;
  env_CreateSemaphore        : Z;
  env_filter_register_all    : kqueue -> Z * kqueue
}.

(** [windows_kqueue_init]: the return value, the kqueue as the call
    leaves it, and the calls made.  The [DEADWOOD] block is compiled out. *)
Definition windows_kqueue_init (env : init_env) (kq : kqueue)
    : Z * kqueue * list call :=
  let kq1 := Kqueue (env_CreateIoCompletionPort env) (kq_synthetic_event kq)
                    (kq_loop kq) (kq_filt kq) in
  if kq_iocp kq1 =? Win32.NULL then
    (-1, kq1, [Call_CreateIoCompletionPort])
  else
    let kq2 := Kqueue (kq_iocp kq1) (env_CreateSemaphore env)
                      (kq_loop kq1) (kq_filt kq1) in
    if kq_synthetic_event kq2 =? Win32.NULL then
      (-1, kq2, [Call_CreateIoCompletionPort; Call_CreateSemaphore])
    else
      let '(rc, kq3) := env_filter_register_all env kq2 in
      if rc <? 0 then
        (-1, kq3, [Call_CreateIoCompletionPort; Call_CreateSemaphore;
                   Call_filter_register_all; Call_evt_destroy (kq_loop kq3)])
      else
        (0, kq3, [Call_CreateIoCompletionPort; Call_CreateSemaphore;
                  Call_filter_register_all]).

(** [windows_kqueue_free]: the calls made, in order. *)
Definition windows_kqueue_free (kq : kqueue) : list call :=
  [Call_evt_destroy (kq_loop kq); Call_free_kq].

(** [windows_filter_free], the per-filter release of the same table of
    operations ([kqops]): its body is empty, it makes no call. *)
Definition windows_filter_free (kq : kqueue) (kf : filter_ops) : list call :=
  [].

(** A call that tears down the aggregator or the kqueue itself. *)
Definition is_teardown (c : call) : bool :=
  match c with
  | Call_evt_destroy _ | Call_free_kq | Call_CloseHandle _ => true
  | _ => false
  end.

(** The release order the specification asks of a close, in its own
    words: every live knote is released, and before anything of the
    aggregator or of the kqueue is. *)
Definition releases_knotes_first (h : knote_heap) (calls : list call) : Prop :=
  forall kn, is_Some (h !! kn) ->
    exists i, calls !! i = Some (Call_knote_delete kn) /\
      forall j c, calls !! j = Some c -> is_teardown c = true -> (i < j)%nat.

(** ** The wait phase *)

Record timespec := Timespec { tv_sec : Z; tv_nsec : Z }.

(** The timeout conversion at the head of [windows_kevent_wait].  A [NULL]
    timeout is [None].  [timeout_ms] is a [DWORD]; the seconds are cast to
    [DWORD] and divided, the nanoseconds are divided as a signed [long]
    (C division truncates, hence [Z.quot]), and both additions are guarded
    by [tv_sec > 0], as in the source. *)
Definition windows_timeout_ms (timeout : option timespec) : Z :=
  match timeout with
  | None => Win32.INFINITE
  | Some ts =>
      let timeout_ms := 0 in
      let timeout_ms :=
        if 0 <? tv_sec ts
        then Win32.to_DWORD (timeout_ms + Win32.to_DWORD (tv_sec ts) `div` 1000)
        else timeout_ms in
      let timeout_ms :=
        if 0 <? tv_sec ts
        then Win32.to_DWORD (timeout_ms + tv_nsec ts `quot` 1000000)
        else timeout_ms in
      timeout_ms
  end.

(** The duration the specification asks for, in its own words: [tv_sec]
    seconds plus [tv_nsec] nanoseconds, converted to milliseconds. *)
Definition timeout_ms_spec (ts : timespec) : Z :=
  tv_sec ts * 1000 + tv_nsec ts `quot` 1000000.

(** What [GetQueuedCompletionStatus] hands back: the [BOOL], the three out
    parameters, and the value [GetLastError] reports afterwards. *)
Record gqcs_result := GqcsResult {
  gqcs_success    : bool;
  gqcs_packet     : event_buf;
  gqcs_last_error : Z
}.

(** The operating system, as far as the wait is concerned: given the port
    and the timeout in milliseconds, what the call returns. *)
Definition completion_port := Z -> Z -> gqcs_result.

(** [windows_kevent_wait]: the C return value and the new content of the
    thread-local [iocp_buf], which is zeroed and then filled by the
    system call.  The parameter [no] is unused in the source. *)
Definition windows_kevent_wait (GetQueuedCompletionStatus : completion_port)
    (kq : kqueue) (no : Z) (timeout : option timespec) : Z * event_buf :=
  let timeout_ms := windows_timeout_ms timeout in
  let r := GetQueuedCompletionStatus (kq_iocp kq) timeout_ms in
  if gqcs_success r then (1, gqcs_packet r)
  else if gqcs_last_error r =? Win32.WAIT_TIMEOUT then (0, gqcs_packet r)
  else (-1, gqcs_packet r).

(** ** The copyout phase *)

(** The index [~(kn->kev.filter)] into [kq_filt]: the [short] is promoted
    to [int] and complemented. *)
Definition filter_index (f : Z) : Z := Z.lnot f.

(** [kq->kq_filt[i]]: an element of the array, or nothing when [i] is
    outside it. *)
Definition filter_slot (tbl : list filter_ops) (i : Z) : option filter_ops :=
  if i <? 0 then None else tbl !! Z.to_nat i.

(** [windows_kevent_copyout].  [iocp_buf] is the thread-local packet left
    by the wait, [h] the live knotes, [eventlist] the memory the caller's
    pointer designates.  The result is the return value with the event
    list and the knotes as the call leaves them.  The knote lock is taken
    and dropped around the filter's copyout and has no sequential effect.
    The increment of the local pointer [eventlist] on the fast path is
    not visible to the caller.

    The function hands the pointer [eventlist] to the filter's copyout
    and tests the return value before it follows the pointer itself, for
    [eventlist->flags].  So with no slot behind the pointer a failing
    filter still leads to [abort], and only a filter that does not fail
    leads to the undefined access; with no slot to read, the filter's
    copyout is given an all-zero one. *)
Definition windows_kevent_copyout (iocp_buf : event_buf) (kq : kqueue)
    (nready : Z) (eventlist : list kevent) (nevents : Z) (h : knote_heap)
    : outcome (Z * list kevent * knote_heap) :=
  let kn := overlap iocp_buf in
  match h !! kn with
  | None => Undefined
  | Some k =>
      match filter_slot (kq_filt kq) (filter_index (filter (kev k))) with
      | None => Undefined
      | Some filt =>
          let '(rv, ev, k') :=
            kf_copyout filt (hd kevent_zero eventlist) k iocp_buf in
          let h := <[kn := k']> h in
          if rv <? 0 then Aborted
          else
            match eventlist with
            | [] => Undefined
            | _ :: rest =>
                let nret := 1 in
                let h := if has_flag (flags ev) EV_DISPATCH
                         then knote_disable filt kn h else h in
                let h := if has_flag (flags ev) EV_ONESHOT
                         then knote_delete filt kn h else h in
                let nret := if negb (filter ev =? 0) then nret else nret - 1 in
                Returned (nret, ev :: rest, h)
            end
      end
  end.

(** The knotes as a copyout that returns leaves them: the knote at [kn]
    as the filter left it, then disabled and deleted as the flags of the
    event [ev] ask. *)
Definition heap_after (kn : Z) (h : knote_heap) (filt : filter_ops)
    (ev : kevent) (k' : knote) : knote_heap :=
  let h1 := <[kn := k']> h in
  let h2 := if has_flag (flags ev) EV_DISPATCH
            then knote_disable filt kn h1 else h1 in
  if has_flag (flags ev) EV_ONESHOT then knote_delete filt kn h2 else h2.

(** The live knotes that a filter of the table owns, each with its
    filter: those whose filter tag selects a slot of [kq_filt]. *)
Definition owned_knotes (kq : kqueue) (h : knote_heap)
    : list (Z * filter_ops) :=
  omap (fun p => (fun filt => (p.1, filt))
                 <$> filter_slot (kq_filt kq) (filter_index (filter (kev p.2))))
       (map_to_list h).

(** Modelled from the spec: the close of a kqueue, which calls the
    platform's release, is not among the sources.  Every knote in every
    filter is deleted, which releases its resource, and then the
    aggregator and the kqueue are released: on this platform by
    [windows_kqueue_free].  The result is the calls made, in order, and
    the knotes left. *)
Definition kqueue_close (kq : kqueue) (h : knote_heap)
    : list call * knote_heap :=
  let owned := owned_knotes kq h in
  (((fun p => Call_knote_delete p.1) <$> owned) ++ windows_kqueue_free kq,
   foldr (fun p h => knote_delete p.2 p.1 h) h owned).




(** The two states a delivery can leave a knote in. *)
Definition knote_disabled (h : knote_heap) (kn : Z) : Prop :=
  exists k, h !! kn = Some k /\ kn_enabled k = false.

Definition knote_deleted (h : knote_heap) (kn : Z) : Prop :=
  h !! kn = None.

(** ** The peer-close probe *)

(** What the operating system answers to the five calls of the probe. *)
Record socket_env := SocketEnv {
  env_socketpair  : Z;   (* socketpair(AF_UNIX, SOCK_STREAM, 0, sockfd) *)
  env_poll_fresh  : Z;   (* poll on sockfd[0], both ends open *)
  env_close_peer  : Z;   (* close(sockfd[1]) *)
  env_poll_closed : Z;   (* poll on sockfd[0], peer closed *)
  env_recv_peek   : Z    (* recv(sockfd[0], .., MSG_PEEK | MSG_DONTWAIT) *)
}.

Inductive test_result :=
| Passed
| Died (msg : string).

(** [test_peer_close_detection] of [test/main.c]. *)
Definition test_peer_close_detection (env : socket_env) : test_result :=
  if env_socketpair env <? 0 then Died "socketpair"
  else if 0 <? env_poll_fresh env then Died "unexpected data"
  else if env_close_peer env <? 0 then Died "close"
  else if 0 <? env_poll_closed env then
    if negb (env_recv_peek env =? 0)
    then Died "failed to detect peer shutdown"
    else Passed
  else Passed.

(** Modelled from the spec: [kqueue_validate] is named by the test's
    comment and is not among the sources.  It creates a pair, closes one
    end, and verifies that the other end reports both readability and
    zero bytes on a [MSG_PEEK]. *)
Definition kqueue_validate (env : socket_env) : bool :=
  (0 <=? env_socketpair env) && (0 <=? env_close_peer env)
  && (0 <? env_poll_closed env) && (env_recv_peek env =? 0).

(** Modelled from the spec: the one-time platform state.  The result of
    the validation is cached; nothing is cached before the first kqueue
    is created. *)
Record platform := Platform {
  peer_close_cache : option bool
}.

Definition platform_start : platform := Platform None.

(** Modelled from the spec: what kqueue creation does to the platform
    state.  The first creation validates and caches; later ones reuse the
    cached result. *)
Definition kqueue_created (env : socket_env) (p : platform) : platform :=
  match peer_close_cache p with
  | None => Platform (Some (kqueue_validate env))
  | Some _ => p
  end.

(** Modelled from the spec: the read filter trusts the technique only on
    a cached, successful validation. *)
Definition peer_close_trusted (p : platform) : bool :=
  match peer_close_cache p with
  | Some true => true
  | _ => false
  end.

(** ** Sample filters and a sample kqueue *)

(** A filter in the style of the library's own: its copyout copies the
    knote's event into the slot and reports success. *)
Definition copy_filter : filter_ops :=
  FilterOps (fun _ k _ => (0, kev k, k)).

(** A filter whose copyout fails and leaves the slot alone. *)
Definition failing_filter : filter_ops :=
  FilterOps (fun slot k _ => (-1, slot, k)).

(** A filter whose copyout finds nothing to report and zeroes the slot. *)
Definition quiet_filter : filter_ops :=
  FilterOps (fun _ k _ => (0, kevent_zero, k)).

Definition sample_kq : kqueue :=
  Kqueue 1 2 0 [copy_filter; failing_filter; quiet_filter].

(** Three knotes, one per sample filter; the first is a oneshot. *)
Definition sample_oneshot : knote :=
  Knote (Kevent 7 (-1) (Z.lor EV_ADD EV_ONESHOT) 0 0 0) true.

Definition sample_heap : knote_heap :=
  <[4096 := sample_oneshot]>
  (<[4128 := Knote (Kevent 8 (-2) EV_ADD 0 0 0) true]>
  (<[4160 := Knote (Kevent 9 (-3) EV_ADD 0 0 0) true]> ∅)).





(** A slot of caller memory with recognisable content. *)
Definition stale_slot : kevent := Kevent 99 99 0 0 99 99.

(** An environment in which creation succeeds, and one in which the
    semaphore cannot be created. *)
Definition sample_init_env : init_env :=
  InitEnv 100 200 (fun kq => (0, kq)).

Definition sample_init_env_no_semaphore : init_env :=
  InitEnv 100 Win32.NULL (fun kq => (0, kq)).

(** A socket layer that behaves: the fresh pair is silent, and once the
    peer is closed the surviving end is readable with nothing to read. *)
Definition sample_socket_env : socket_env := SocketEnv 0 0 0 1 0.

(** ** Filter registration *)

(** [struct kqueue], the fields [windows_filter_init] touches: the array
    [kq_filt_ref] of pointers to filters, and the number of its slots in
    use.  The array is declared in [private.h]; its length is that of the
    list. *)
Record kqueue_refs := KqueueRefs {
  kq_filt_ref   : list Z;
  kq_filt_count : Z
}.

(** [windows_filter_init] stores the pointer [kf] at index
    [kq_filt_count], increments the count and returns 0.  There is no
    bounds check in the source: a count outside the array makes the store
    undefined. *)
Definition windows_filter_init (kq : kqueue_refs) (kf : Z)
    : outcome (Z * kqueue_refs) :=
  if (0 <=? kq_filt_count kq)
     && (kq_filt_count kq <? Z.of_nat (length (kq_filt_ref kq)))
  then Returned (0, KqueueRefs
                      (<[Z.to_nat (kq_filt_count kq) := kf]> (kq_filt_ref kq))
                      (kq_filt_count kq + 1))
  else Undefined.

(** [windows_filter_init] called for one filter after the other, as a
    registration of the whole table does; the run stops at the first call
    that does not return. *)
Fixpoint windows_filter_init_all (kq : kqueue_refs) (kfs : list Z)
    : outcome kqueue_refs :=
  match kfs with
  | [] => Returned kq
  | kf :: kfs =>
      match windows_filter_init kq kf with
      | Returned (_, kq') => windows_filter_init_all kq' kfs
      | Aborted => Aborted
      | Undefined => Undefined
      end
  end.

(** ** The test driver *)

(** The functions [main] of [test/main.c] calls, by name. *)
Inductive test_call :=
| Run_peer_close_detection
| Run_kqueue
| Run_kevent
| Run_cancel_state_unchanged
| Run_cancel_enabled
| Run_cancel_disabled
| Run_evfilt_read
| Run_evfilt_signal
| Run_evfilt_vnode
| Run_evfilt_timer
| Run_evfilt_user
| Run_ev_receipt.

(** [struct unit_test]. *)
Record unit_test := UnitTest {
  ut_name    : string;
  ut_enabled : Z;
  ut_func    : test_call
}.

(** The table [tests] of [main], without its terminating entry.  The
    [proc] entry is compiled out ([#if FIXME]); the [user] entry depends on
    [HAVE_EVFILT_USER]. *)
Definition tests_table (HAVE_EVFILT_USER : bool) : list unit_test :=
  [UnitTest "socket" 1 Run_evfilt_read;
   UnitTest "signal" 1 Run_evfilt_signal;
   UnitTest "vnode" 1 Run_evfilt_vnode;
   UnitTest "timer" 1 Run_evfilt_timer]
  ++ (if HAVE_EVFILT_USER then [UnitTest "user" 1 Run_evfilt_user] else []).

(** The first loop of [main]: every test is disabled. *)
Definition disable_tests (tests : list unit_test) : list unit_test :=
  map (fun t => UnitTest (ut_name t) 0 (ut_func t)) tests.

(** The inner loop of [main]: the first test whose name compares equal to
    [arg] is enabled and the search stops; the flag is [match]. *)
Fixpoint enable_test (arg : string) (tests : list unit_test)
    : list unit_test * bool :=
  match tests with
  | [] => ([], false)
  | t :: tests =>
      if String.eqb arg (ut_name t)
      then (UnitTest (ut_name t) 1 (ut_func t) :: tests, true)
      else let '(tests', found) := enable_test arg tests in (t :: tests', found)
  end.

(** The two lines [main] prints, without their newline. *)
Definition enabled_line (arg : string) : string :=
  String.append "enabled test: " arg.

Definition invalid_line (arg : string) : string :=
  String.append "ERROR: invalid option: " arg.

(** How the argument loop ends: it runs out of arguments, or it calls
    [exit]. *)
Inductive parsed :=
| Parse_done (tests : list unit_test) (out : list string)
| Parse_exit (status : Z) (out : list string).

(** The [while (argc > 1)] loop of [main], over the arguments after
    [argv[0]]; [out] is what has been printed so far. *)
Fixpoint parse_args (args : list string) (tests : list unit_test)
    (out : list string) : parsed :=
  match args with
  | [] => Parse_done tests out
  | arg :: args =>
      let '(tests', found) := enable_test arg tests in
      if found
      then parse_args args tests' (out ++ [enabled_line arg])
      else Parse_exit 1 (out ++ [invalid_line arg])
  end.

(** How [main] ends: with an exit status, or in [die].  Either way with
    what it printed and the test functions it called, in order. *)
Inductive main_result :=
| Main_exit (status : Z) (out : list string) (ran : list test_call)
| Main_died (msg : string) (out : list string) (ran : list test_call).

(** The tests [main] runs whatever its arguments, before the table. *)
Definition tests_always : list test_call :=
  [Run_peer_close_detection; Run_kqueue; Run_kevent;
   Run_cancel_state_unchanged; Run_cancel_enabled; Run_cancel_disabled].

(** The test functions of the entries that are enabled, in table order. *)
Definition enabled_funcs (tests : list unit_test) : list test_call :=
  map ut_func (List.filter (fun t => negb (ut_enabled t =? 0)) tests).

(** [main].  [argv] is the argument vector with [argv[0]], [argc] its
    length; [kqfd] is what [kqueue()] returns.  Every test function that
    is called is taken to return. *)
Definition main (HAVE_EVFILT_USER : bool) (argv : list string) (kqfd : Z)
    : main_result :=
  let argc := Z.of_nat (length argv) in
  let tests := tests_table HAVE_EVFILT_USER in
  let tests := if 1 <? argc then disable_tests tests else tests in
  match parse_args (tail argv) tests [] with
  | Parse_exit status out => Main_exit status out []
  | Parse_done tests out =>
      if kqfd <? 0 then Main_died "kqueue()" out tests_always
      else Main_exit 0 out
             (tests_always ++ enabled_funcs tests ++ [Run_ev_receipt])
  end.

(** The entries of a table that the arguments name, in table order. *)
Definition named_by (args : list string) (tests : list unit_test)
    : list unit_test :=
  List.filter (fun t => bool_decide (ut_name t ∈ args)) tests.

(** A filter whose copyout finds nothing to report but leaves the
    knote's flags in the otherwise empty slot. *)
Definition flags_only_filter : filter_ops :=
  FilterOps (fun _ k _ => (0, Kevent 0 0 (flags (kev k)) 0 0 0, k)).

(** What one argument does to one entry of a table whose names are
    distinct: the entry of that name is enabled. *)
Definition enable_if_named (arg : string) (t : unit_test) : unit_test :=
  if String.eqb arg (ut_name t) then UnitTest (ut_name t) 1 (ut_func t) else t.

(** The test functions a run of [main] called. *)
Definition main_ran (r : main_result) : list test_call :=
  match r with
  | Main_exit _ _ ran => ran
  | Main_died _ _ ran => ran
  end.

(** * Properties *)

(** ** Arithmetic of the timeout *)

Lemma to_DWORD_small z : 0 <= z < Win32.DWORD_MODULUS -> Win32.to_DWORD z = z.
Proof. apply Z.mod_small. Qed.

Lemma windows_timeout_ms_null : windows_timeout_ms None = Win32.INFINITE.
Proof. reflexivity. Qed.

Lemma windows_timeout_ms_zero : windows_timeout_ms (Some (Timespec 0 0)) = 0.
Proof. reflexivity. Qed.

(** Without whole seconds the nanoseconds are dropped. *)
Lemma windows_timeout_ms_no_seconds ts :
  tv_sec ts <= 0 -> windows_timeout_ms (Some ts) = 0.
Proof.
  intros Hs. unfold windows_timeout_ms.
  destruct (Z.ltb_spec 0 (tv_sec ts)); [lia | reflexivity].
Qed.

(** With whole seconds, in the range of a well-formed [timespec], the
    value is the seconds divided by 1000 plus the whole milliseconds of
    the nanoseconds. *)
Lemma windows_timeout_ms_seconds ts :
  0 < tv_sec ts < Win32.DWORD_MODULUS ->
  0 <= tv_nsec ts < 1000000000 ->
  windows_timeout_ms (Some ts) = tv_sec ts `div` 1000 + tv_nsec ts `div` 1000000.
Proof.
  intros Hs Hn. unfold windows_timeout_ms.
  destruct (Z.ltb_spec 0 (tv_sec ts)); [| lia].
  rewrite Z.quot_div_nonneg by lia.
  rewrite (to_DWORD_small (tv_sec ts)) by lia.
  assert (Hq : 0 <= tv_sec ts `div` 1000 < 4294968).
  { split; [apply Z.div_pos; lia |].
    apply Z.div_lt_upper_bound; [lia |]. unfold Win32.DWORD_MODULUS in Hs.
    change (2 ^ 32) with 4294967296 in Hs. lia. }
  assert (Hm : 0 <= tv_nsec ts `div` 1000000 < 1000).
  { split; [apply Z.div_pos; lia |]. apply Z.div_lt_upper_bound; lia. }
  rewrite Z.add_0_l.
  rewrite (to_DWORD_small (tv_sec ts `div` 1000)).
  2:{ unfold Win32.DWORD_MODULUS. change (2 ^ 32) with 4294967296. lia. }
  apply to_DWORD_small.
  unfold Win32.DWORD_MODULUS. change (2 ^ 32) with 4294967296. lia.
Qed.

(** The wait hands exactly the converted timeout to the completion port
    and maps its answer to 1, 0 or -1. *)
Lemma windows_kevent_wait_timeout os kq no timeout :
  windows_kevent_wait os kq no timeout =
    let r := os (kq_iocp kq) (windows_timeout_ms timeout) in
    ((if gqcs_success r then 1
      else if gqcs_last_error r =? Win32.WAIT_TIMEOUT then 0 else -1),
     gqcs_packet r).
Proof.
  unfold windows_kevent_wait. cbv zeta.
  destruct (gqcs_success _); [reflexivity |].
  destruct (_ =? _); reflexivity.
Qed.

(** C1.  A timeout of one second and no nanoseconds must block for 1000
    milliseconds; [windows_kevent_wait] converts it to 0 milliseconds
    (the seconds are divided by 1000 where they should be multiplied), so
    the wait on the completion port polls.  Half a second is dropped in
    the same way, its addition being guarded by the seconds. *)
Theorem windows_timeout_ms_one_second :
  windows_timeout_ms (Some (Timespec 1 0)) = 0 /\
  timeout_ms_spec (Timespec 1 0) = 1000 /\
  windows_timeout_ms (Some (Timespec 0 500000000)) = 0 /\
  timeout_ms_spec (Timespec 0 500000000) = 500 /\
  forall os kq no,
    windows_kevent_wait os kq no (Some (Timespec 1 0)) =
    windows_kevent_wait os kq no (Some (Timespec 0 0)).
Proof.
  repeat split; try reflexivity.
Qed.

(** ** The filter table index *)

Lemma filter_index_eq f : filter_index f = - f - 1.
Proof. unfold filter_index, Z.lnot. lia. Qed.

Lemma filter_slot_is_Some (tbl : list filter_ops) i :
  is_Some (filter_slot tbl i) <-> 0 <= i < Z.of_nat (length tbl).
Proof.
  unfold filter_slot. destruct (Z.ltb_spec i 0) as [Hneg | Hpos].
  - split; [intros [? ?]; discriminate | lia].
  - rewrite lookup_lt_is_Some. lia.
Qed.

(** ** One call of the copyout *)

Section Copyout.

Variables (iocp_buf : event_buf) (kq : kqueue).
Variables (nready nevents : Z) (eventlist : list kevent) (h : gmap Z knote).

(** The copyout, unfolded along the path on which every access is
    defined. *)
Lemma windows_kevent_copyout_defined k filt slot rest :
  h !! overlap iocp_buf = Some k ->
  filter_slot (kq_filt kq) (filter_index (filter (kev k))) = Some filt ->
  eventlist = slot :: rest ->
  windows_kevent_copyout iocp_buf kq nready eventlist nevents h =
    let r := kf_copyout filt slot k iocp_buf in
    if r.1.1 <? 0 then Aborted
    else Returned (if negb (filter r.1.2 =? 0) then 1 else 0,
                   r.1.2 :: rest, heap_after (overlap iocp_buf) h filt r.1.2 r.2).
Proof.
  intros Hk Hf ->. unfold windows_kevent_copyout, heap_after.
  rewrite Hk, Hf. cbn [hd].
  destruct (kf_copyout filt slot k iocp_buf) as [[rv ev] k'].
  simpl. destruct (rv <? 0); [reflexivity |].
  destruct (negb (filter ev =? 0)); reflexivity.
Qed.

(** A copyout that returns found a live knote, a filter in the table
    and a slot to write. *)
Lemma windows_kevent_copyout_returns_slot r :
  windows_kevent_copyout iocp_buf kq nready eventlist nevents h = Returned r ->
  exists k filt slot rest,
    h !! overlap iocp_buf = Some k /\
    filter_slot (kq_filt kq) (filter_index (filter (kev k))) = Some filt /\
    eventlist = slot :: rest.
Proof.
  unfold windows_kevent_copyout.
  destruct (h !! overlap iocp_buf) as [k |]; [| discriminate].
  destruct (filter_slot (kq_filt kq) (filter_index (filter (kev k))))
    as [filt |] eqn:Hf; [| discriminate].
  destruct (kf_copyout filt (hd kevent_zero eventlist) k iocp_buf)
    as [[rv ev] k'].
  destruct (rv <? 0); [discriminate |].
  destruct eventlist as [| slot rest]; [discriminate |].
  intros _. exists k, filt, slot, rest. auto.
Qed.

Lemma windows_kevent_copyout_returned nret evl h' :
  windows_kevent_copyout iocp_buf kq nready eventlist nevents h
    = Returned (nret, evl, h') ->
  exists k filt slot rest,
    h !! overlap iocp_buf = Some k /\
    filter_slot (kq_filt kq) (filter_index (filter (kev k))) = Some filt /\
    eventlist = slot :: rest /\
    let r := kf_copyout filt slot k iocp_buf in
    0 <= r.1.1 /\
    nret = (if negb (filter r.1.2 =? 0) then 1 else 0) /\
    evl = r.1.2 :: rest /\
    h' = heap_after (overlap iocp_buf) h filt r.1.2 r.2.
Proof.
  intros Hret.
  destruct (windows_kevent_copyout_returns_slot _ Hret)
    as (k & filt & slot & rest & Hk & Hf & Hl).
  exists k, filt, slot, rest. repeat (split; [assumption |]).
  rewrite (windows_kevent_copyout_defined k filt slot rest Hk Hf Hl) in Hret.
  cbv zeta in *.
  destruct (Z.ltb_spec (kf_copyout filt slot k iocp_buf).1.1 0); [discriminate |].
  inversion Hret; subst. auto.
Qed.

End Copyout.

Lemma filter_slot_elem_of (tbl : list filter_ops) i filt :
  filter_slot tbl i = Some filt -> filt ∈ tbl.
Proof.
  unfold filter_slot. destruct (i <? 0); [discriminate |].
  intros Hl. eapply list_elem_of_lookup_2, Hl.
Qed.

(** C5.  When the filter's copyout returns a negative value, the call
    does not return at all, with -1 or otherwise: it ends in [abort].
    Conversely, on a defined path, the call aborts only then. *)
Theorem windows_kevent_copyout_aborts iocp_buf kq nready eventlist nevents
    (h : gmap Z knote) k filt slot rest :
  h !! overlap iocp_buf = Some k ->
  filter_slot (kq_filt kq) (filter_index (filter (kev k))) = Some filt ->
  eventlist = slot :: rest ->
  (kf_copyout filt slot k iocp_buf).1.1 < 0 <->
  windows_kevent_copyout iocp_buf kq nready eventlist nevents h = Aborted.
Proof.
  intros Hk Hf Hl.
  rewrite (windows_kevent_copyout_defined _ _ _ _ _ _ k filt slot rest Hk Hf Hl).
  cbv zeta. destruct (Z.ltb_spec (kf_copyout filt slot k iocp_buf).1.1 0).
  - tauto.
  - split; [lia | discriminate].
Qed.

(** C4.  When the filter's copyout succeeds and leaves an event whose
    [filter] field is zero, the call returns 0: the event is not counted,
    nothing is reported as an error and the process is not aborted.  When
    the event is empty altogether, the knote is neither disabled nor
    deleted: it stays as the filter left it. *)
Theorem windows_kevent_copyout_discards iocp_buf kq nready eventlist nevents
    (h : gmap Z knote) k filt slot rest :
  h !! overlap iocp_buf = Some k ->
  filter_slot (kq_filt kq) (filter_index (filter (kev k))) = Some filt ->
  eventlist = slot :: rest ->
  0 <= (kf_copyout filt slot k iocp_buf).1.1 ->
  filter (kf_copyout filt slot k iocp_buf).1.2 = 0 ->
  (exists h',
     windows_kevent_copyout iocp_buf kq nready eventlist nevents h =
       Returned (0, (kf_copyout filt slot k iocp_buf).1.2 :: rest, h')) /\
  ((kf_copyout filt slot k iocp_buf).1.2 = kevent_zero ->
   windows_kevent_copyout iocp_buf kq nready eventlist nevents h =
     Returned (0, kevent_zero :: rest,
               <[overlap iocp_buf := (kf_copyout filt slot k iocp_buf).2]> h)).
Proof.
  intros Hk Hf Hl Hrv Hev.
  rewrite (windows_kevent_copyout_defined _ _ _ _ _ _ k filt slot rest Hk Hf Hl).
  cbv zeta. destruct (Z.ltb_spec (kf_copyout filt slot k iocp_buf).1.1 0); [lia |].
  rewrite Hev. simpl. split; [eauto |].
  intros ->. reflexivity.
Qed.

(** C9.  The copyout does not look at [nready] or [nevents]: any two
    calls that differ only in them end alike.  When it returns, the value
    is 0 or 1 and the caller's event list has changed in its first slot
    at most; it does return, with the filter's event in the first slot,
    whenever the knote, the filter and the slot exist and the filter's
    copyout does not fail.  In particular a call with [nevents = 0] still
    writes the first slot, and a call on an event list with no slot at
    all never returns. *)
Theorem windows_kevent_copyout_one_slot :
  (forall iocp_buf kq nready nevents nready' nevents' eventlist
          (h : gmap Z knote),
     windows_kevent_copyout iocp_buf kq nready eventlist nevents h =
     windows_kevent_copyout iocp_buf kq nready' eventlist nevents' h) /\
  (forall iocp_buf kq nready nevents eventlist (h : gmap Z knote),
     match windows_kevent_copyout iocp_buf kq nready eventlist nevents h with
     | Returned (nret, evl, _) =>
         (nret = 0 \/ nret = 1) /\
         length evl = length eventlist /\
         tail evl = tail eventlist
     | Aborted | Undefined => True
     end) /\
  (forall iocp_buf kq nready nevents (h : gmap Z knote) k filt slot rest,
     h !! overlap iocp_buf = Some k ->
     filter_slot (kq_filt kq) (filter_index (filter (kev k))) = Some filt ->
     0 <= (kf_copyout filt slot k iocp_buf).1.1 ->
     exists nret h',
       windows_kevent_copyout iocp_buf kq nready (slot :: rest) nevents h =
         Returned (nret, (kf_copyout filt slot k iocp_buf).1.2 :: rest, h') /\
       (nret = 0 \/ nret = 1)) /\
  windows_kevent_copyout (EventBuf 0 0 4096) sample_kq 1 [stale_slot] 0
      sample_heap =
    Returned (1, [kev sample_oneshot], delete 4096 sample_heap) /\
  (forall iocp_buf kq nready nevents (h : gmap Z knote) r,
     windows_kevent_copyout iocp_buf kq nready [] nevents h <> Returned r).
Proof.
  split; [reflexivity |]. split; [| split; [| split]].
  4:{ intros iocp_buf kq nready nevents h r Hret.
      apply windows_kevent_copyout_returns_slot in Hret
        as (k & filt & slot & rest & _ & _ & Hl).
      discriminate. }
  2:{ intros iocp_buf kq nready nevents h k filt slot rest Hk Hf Hrv.
      rewrite (windows_kevent_copyout_defined _ _ _ _ _ _ k filt slot rest
                 Hk Hf eq_refl).
      cbv zeta.
      destruct (Z.ltb_spec (kf_copyout filt slot k iocp_buf).1.1 0); [lia |].
      eexists _, _. split; [reflexivity |].
      destruct (negb _); auto. }
  - intros iocp_buf kq nready nevents eventlist h.
    destruct (windows_kevent_copyout iocp_buf kq nready eventlist nevents h)
      as [[[nret evl] h'] | |] eqn:Hc; [| exact I | exact I].
    apply windows_kevent_copyout_returned in Hc
      as (k & filt & slot & rest & _ & _ & -> & _ & -> & -> & _).
    split; [destruct (negb _); auto |]. split; reflexivity.
  - vm_compute. reflexivity.
Qed.

(** With no slot behind the pointer, a filter that fails without writing
    still leads to [abort]; one that reports success leads to the
    undefined access. *)
Example windows_kevent_copyout_no_slot :
  windows_kevent_copyout (EventBuf 0 0 4128) sample_kq 1 [] 0 sample_heap
    = Aborted /\
  windows_kevent_copyout (EventBuf 0 0 4096) sample_kq 1 [] 0 sample_heap
    = Undefined.
Proof. split; reflexivity. Qed.

(** C10.  For the knote [k] a packet names, the copyout takes the filter
    at index [~f] of the table, [f] being the knote's filter tag: that is
    index [-f-1], so [EVFILT_READ] is slot 0.  The slot exists exactly
    when [f] is negative and no smaller than minus the table's length;
    for any other tag the access is outside the array and the call is
    undefined. *)
Theorem filter_index_complement iocp_buf kq nready nevents eventlist
    (h : gmap Z knote) k :
  h !! overlap iocp_buf = Some k ->
  let f := filter (kev k) in
  let len := Z.of_nat (length (kq_filt kq)) in
  filter_index f = - f - 1 /\
  filter_index EVFILT_READ = 0 /\
  (is_Some (filter_slot (kq_filt kq) (filter_index f)) <-> - len <= f < 0) /\
  (~ (- len <= f < 0) ->
   windows_kevent_copyout iocp_buf kq nready eventlist nevents h = Undefined) /\
  (- len <= f < 0 ->
   exists filt,
     kq_filt kq !! Z.to_nat (- f - 1) = Some filt /\
     forall slot rest, eventlist = slot :: rest ->
       windows_kevent_copyout iocp_buf kq nready eventlist nevents h =
         let r := kf_copyout filt slot k iocp_buf in
         if r.1.1 <? 0 then Aborted
         else Returned (if negb (filter r.1.2 =? 0) then 1 else 0,
                        r.1.2 :: rest,
                        heap_after (overlap iocp_buf) h filt r.1.2 r.2)).
Proof.
  intros Hk f len.
  assert (Hrange : is_Some (filter_slot (kq_filt kq) (filter_index f))
                   <-> - len <= f < 0).
  { rewrite filter_slot_is_Some, filter_index_eq. subst len. lia. }
  split; [apply filter_index_eq |]. split; [reflexivity |].
  split; [exact Hrange |]. split.
  - intros Hout. unfold windows_kevent_copyout. rewrite Hk. fold f.
    destruct (filter_slot (kq_filt kq) (filter_index f)) as [filt |] eqn:Hf;
      [| reflexivity].
    exfalso. apply Hout, Hrange. eauto.
  - intros Hin. apply Hrange in Hin as [filt Hf]. exists filt. split.
    + unfold filter_slot in Hf. rewrite filter_index_eq in Hf.
      destruct (- f - 1 <? 0); [discriminate | exact Hf].
    + intros slot rest Hl.
      apply (windows_kevent_copyout_defined _ _ _ _ _ _ k filt slot rest Hk Hf Hl).
Qed.

(** ** Knotes across a copyout *)

Lemma heap_after_lookup_ne kn (h : gmap Z knote) filt ev k' p :
  p <> kn -> heap_after kn h filt ev k' !! p = h !! p.
Proof.
  intros Hne. unfold heap_after, knote_disable, knote_delete.
  destruct (has_flag (flags ev) EV_ONESHOT),
           (has_flag (flags ev) EV_DISPATCH);
    rewrite ?lookup_delete_ne, ?lookup_alter_ne, ?lookup_insert_ne by congruence;
    reflexivity.
Qed.

Lemma heap_after_lookup_eq kn (h : gmap Z knote) filt ev k' :
  heap_after kn h filt ev k' !! kn =
    if has_flag (flags ev) EV_ONESHOT then None
    else if has_flag (flags ev) EV_DISPATCH then Some (Knote (kev k') false)
    else Some k'.
Proof.
  unfold heap_after, knote_disable, knote_delete.
  destruct (has_flag (flags ev) EV_ONESHOT),
           (has_flag (flags ev) EV_DISPATCH);
    rewrite ?lookup_delete_eq, ?lookup_alter_eq, ?lookup_insert_eq;
    reflexivity.
Qed.


(** A packet that names no live knote makes the copyout undefined. *)
Lemma windows_kevent_copyout_stale iocp_buf kq nready eventlist nevents
    (h : gmap Z knote) :
  h !! overlap iocp_buf = None ->
  windows_kevent_copyout iocp_buf kq nready eventlist nevents h = Undefined.
Proof. intros Hdead. unfold windows_kevent_copyout. rewrite Hdead. reflexivity. Qed.

(** ** Runs of the copyout *)



(** What a returning copyout does to the knote, read off the flags of
    the event in the first slot, whatever the filters are and whether or
    not the event is counted. *)
Lemma windows_kevent_copyout_event_flags iocp_buf kq nready nevents eventlist
    (h : gmap Z knote) nret ev evl h' :
  windows_kevent_copyout iocp_buf kq nready eventlist nevents h
    = Returned (nret, ev :: evl, h') ->
  (has_flag (flags ev) EV_ONESHOT = true ->
   knote_deleted h' (overlap iocp_buf)) /\
  (has_flag (flags ev) EV_ONESHOT = false ->
   has_flag (flags ev) EV_DISPATCH = true ->
   knote_disabled h' (overlap iocp_buf)) /\
  (has_flag (flags ev) EV_ONESHOT = false ->
   has_flag (flags ev) EV_DISPATCH = false ->
   is_Some (h' !! overlap iocp_buf)).
Proof.
  intros Hc.
  apply windows_kevent_copyout_returned in Hc
    as (k & filt & slot & rest & _ & _ & _ & _ & _ & Hevl & ->).
  cbv zeta in Hevl. injection Hevl as -> ->.
  unfold knote_deleted, knote_disabled. rewrite heap_after_lookup_eq.
  repeat split.
  - intros ->. reflexivity.
  - intros -> ->. eexists. split; reflexivity.
  - intros -> ->. eauto.
Qed.



(** ** Creation and release of the kqueue *)

(** C6.  [windows_kqueue_init] returns 0 or -1.  It returns -1 exactly
    when the completion port cannot be created, or the semaphore for
    synthetic events cannot be created, or the registration of the filter
    table fails; it returns 0 exactly when all three succeed, and the
    kqueue it then leaves is the one the registration produced, with both
    handles in place. *)
Theorem windows_kqueue_init_result env kq :
  let r := windows_kqueue_init env kq in
  let reg := env_filter_register_all env
               (Kqueue (env_CreateIoCompletionPort env)
                       (env_CreateSemaphore env) (kq_loop kq) (kq_filt kq)) in
  (r.1.1 = 0 \/ r.1.1 = -1) /\
  (r.1.1 = -1 <->
     env_CreateIoCompletionPort env = Win32.NULL \/
     env_CreateSemaphore env = Win32.NULL \/
     reg.1 < 0) /\
  (r.1.1 = 0 <->
     env_CreateIoCompletionPort env <> Win32.NULL /\
     env_CreateSemaphore env <> Win32.NULL /\
     0 <= reg.1) /\
  (r.1.1 = 0 ->
     r.1.2 = reg.2 /\
     r.2 = [Call_CreateIoCompletionPort; Call_CreateSemaphore;
            Call_filter_register_all]).
Proof.
  unfold windows_kqueue_init. cbv zeta. simpl.
  destruct (Z.eqb_spec (env_CreateIoCompletionPort env) Win32.NULL) as [Hp | Hp];
    simpl.
  { split; [auto |]. split; [tauto |]. split; [| discriminate].
    split; [discriminate | tauto]. }
  destruct (Z.eqb_spec (env_CreateSemaphore env) Win32.NULL) as [Hs | Hs]; simpl.
  { split; [auto |]. split; [tauto |]. split; [| discriminate].
    split; [discriminate | tauto]. }
  destruct (env_filter_register_all env _) as [rc kq3]. simpl.
  destruct (Z.ltb_spec rc 0) as [Hr | Hr]; simpl.
  - split; [auto |]. split; [tauto |]. split; [| discriminate].
    split; [discriminate | lia].
  - split; [auto |]. split; [| split; [tauto | auto]].
    split; [discriminate |]. intros [? | [? | ?]]; [contradiction .. | lia].
Qed.

(** The release hook of the platform tears down and does nothing else:
    it destroys the loop, then frees the kqueue, and deletes no knote. *)
Lemma windows_kqueue_free_teardown_only kq :
  Forall (fun c => is_teardown c = true) (windows_kqueue_free kq) /\
  forall kn, Call_knote_delete kn ∉ windows_kqueue_free kq.
Proof.
  split; [repeat constructor |].
  intros kn Hin. unfold windows_kqueue_free in Hin.
  apply elem_of_cons in Hin as [Heq | Hin]; [discriminate |].
  apply elem_of_cons in Hin as [Heq | Hin]; [discriminate |].
  by apply elem_of_nil in Hin.
Qed.

Lemma elem_of_owned_knotes kq (h : gmap Z knote) kn filt :
  (kn, filt) ∈ owned_knotes kq h <->
  exists k, h !! kn = Some k /\
    filter_slot (kq_filt kq) (filter_index (filter (kev k))) = Some filt.
Proof.
  unfold owned_knotes. rewrite list_elem_of_omap. split.
  - intros ([kn' k] & Hin & Hf). apply elem_of_map_to_list in Hin.
    simpl in Hf.
    destruct (filter_slot (kq_filt kq) (filter_index (filter (kev k))))
      as [filt' |] eqn:Hslot; [| discriminate].
    simpl in Hf. injection Hf as <- <-. eauto.
  - intros (k & Hk & Hf). exists (kn, k). split.
    + by apply elem_of_map_to_list.
    + simpl. rewrite Hf. reflexivity.
Qed.

Lemma lookup_foldr_knote_delete (owned : list (Z * filter_ops))
    (h : gmap Z knote) kn :
  foldr (fun p h => knote_delete p.2 p.1 h) h owned !! kn =
    if decide (kn ∈ owned.*1) then None else h !! kn.
Proof.
  induction owned as [| [kn' filt] owned IH]; simpl.
  - reflexivity.
  - unfold knote_delete at 1. destruct (decide (kn = kn')) as [-> | Hne].
    + rewrite lookup_delete_eq. clear IH. case_decide as Hin; [reflexivity |].
      exfalso. apply Hin, elem_of_cons. auto.
    + rewrite lookup_delete_ne by congruence. rewrite IH. clear IH.
      case_decide as Hin; case_decide as Hin'; try reflexivity; exfalso.
      * apply Hin', elem_of_cons. auto.
      * apply elem_of_cons in Hin' as [? | ?]; [congruence | contradiction].
Qed.

(** C3.  In a kqueue every live knote of which belongs to a filter of
    the table, the close deletes every knote, and does so before any call
    that releases the aggregator or the kqueue: the calls are one
    [knote_delete] per live knote followed by the two calls of
    [windows_kqueue_free], the destruction of the loop and then the
    release of the kqueue; no knote is live afterwards. *)
Theorem kqueue_close_releases_knotes_first kq (h : gmap Z knote) :
  map_Forall (fun _ k =>
    is_Some (filter_slot (kq_filt kq) (filter_index (filter (kev k))))) h ->
  releases_knotes_first h (kqueue_close kq h).1 /\
  (kqueue_close kq h).2 = ∅ /\
  exists kns,
    (kqueue_close kq h).1 =
      (Call_knote_delete <$> kns)
      ++ [Call_evt_destroy (kq_loop kq); Call_free_kq] /\
    forall kn, kn ∈ kns <-> is_Some (h !! kn).
Proof.
  intros Hwf. unfold kqueue_close. cbv zeta. simpl fst. simpl snd.
  set (owned := owned_knotes kq h).
  assert (Hin : forall kn, kn ∈ owned.*1 <-> is_Some (h !! kn)).
  { intros kn. rewrite list_elem_of_fmap. split.
    - intros ([kn' filt] & -> & Hmem). simpl.
      apply elem_of_owned_knotes in Hmem as (k & Hk & _). eauto.
    - intros [k Hk]. destruct (Hwf kn k Hk) as [filt Hf].
      exists (kn, filt). split; [reflexivity |].
      apply elem_of_owned_knotes. eauto. }
  assert (Hcalls : (fun p : Z * filter_ops => Call_knote_delete p.1) <$> owned
                   = Call_knote_delete <$> owned.*1).
  { by rewrite <- list_fmap_compose. }
  rewrite Hcalls. split; [| split].
  - intros kn Hlive. apply Hin in Hlive.
    apply list_elem_of_lookup_1 in Hlive as [i Hi].
    assert (Hlt : (i < length owned.*1)%nat) by (eapply lookup_lt_Some, Hi).
    exists i. split.
    + rewrite lookup_app_l by (by rewrite length_fmap).
      rewrite list_lookup_fmap, Hi. reflexivity.
    + intros j c Hj Htear.
      destruct (decide (j < length owned.*1)%nat) as [Hjlt | Hjge]; [| lia].
      rewrite lookup_app_l in Hj by (by rewrite length_fmap).
      rewrite list_lookup_fmap in Hj.
      destruct (owned.*1 !! j); simpl in Hj; [| discriminate].
      injection Hj as <-. discriminate.
  - apply map_empty. intros kn. rewrite lookup_foldr_knote_delete.
    case_decide as Hmem; [reflexivity |].
    destruct (h !! kn) as [k |] eqn:Hk; [| reflexivity].
    exfalso. apply Hmem, Hin. eauto.
  - exists owned.*1. split; [reflexivity | exact Hin].
Qed.

(** ** The peer-close probe *)

Lemma kqueue_validate_true env :
  kqueue_validate env = true <->
  0 <= env_socketpair env /\ 0 <= env_close_peer env /\
  0 < env_poll_closed env /\ env_recv_peek env = 0.
Proof.
  unfold kqueue_validate.
  rewrite !andb_true_iff, !Z.leb_le, Z.ltb_lt, Z.eqb_eq. tauto.
Qed.

(** The test of [test/main.c] accepts whatever the validation accepts,
    provided a fresh pair has nothing to read. *)
Lemma test_peer_close_detection_validated env :
  kqueue_validate env = true -> env_poll_fresh env <= 0 ->
  test_peer_close_detection env = Passed.
Proof.
  rewrite kqueue_validate_true. intros (Hp & Hc & Hr & Hz) Hfresh.
  unfold test_peer_close_detection.
  destruct (Z.ltb_spec (env_socketpair env) 0); [lia |].
  destruct (Z.ltb_spec 0 (env_poll_fresh env)); [lia |].
  destruct (Z.ltb_spec (env_close_peer env) 0); [lia |].
  destruct (Z.ltb_spec 0 (env_poll_closed env)); [| reflexivity].
  rewrite Hz. reflexivity.
Qed.

(** The test itself is more lenient: it also passes when the surviving
    end does not report readability at all. *)
Example test_peer_close_detection_lenient :
  test_peer_close_detection (SocketEnv 0 0 0 0 (-1)) = Passed /\
  kqueue_validate (SocketEnv 0 0 0 0 (-1)) = false.
Proof. split; reflexivity. Qed.

(** C7.  Before the first kqueue is created the technique is not
    trusted.  The first creation runs the validation, and the technique
    is trusted afterwards exactly when the pair could be created, one end
    closed, and the surviving end reported readability and zero bytes on
    the peek.  The result is cached: later creations do not change it,
    and the read filter trusts the technique only on a cached success. *)
Theorem peer_close_validated_before_trusted env :
  peer_close_trusted platform_start = false /\
  (peer_close_trusted (kqueue_created env platform_start) = true <->
     0 <= env_socketpair env /\ 0 <= env_close_peer env /\
     0 < env_poll_closed env /\ env_recv_peek env = 0) /\
  (forall env',
     kqueue_created env' (kqueue_created env platform_start) =
     kqueue_created env platform_start) /\
  (forall p, peer_close_trusted p = true <-> peer_close_cache p = Some true) /\
  (peer_close_trusted (kqueue_created env platform_start) = true ->
   env_poll_fresh env <= 0 -> test_peer_close_detection env = Passed).
Proof.
  split; [reflexivity |]. split.
  { rewrite <- kqueue_validate_true. unfold kqueue_created, peer_close_trusted.
    simpl. destruct (kqueue_validate env); split; congruence. }
  split; [reflexivity |]. split.
  { intros [[[] |]]; unfold peer_close_trusted; simpl; split; congruence. }
  unfold kqueue_created, peer_close_trusted. simpl.
  destruct (kqueue_validate env) eqn:Hv; [| discriminate].
  intros _. by apply test_peer_close_detection_validated.
Qed.

(** ** The statements at the sample inputs *)


(** The close of the sample kqueue deletes its three knotes before the
    loop is destroyed and the kqueue freed. *)
Lemma kqueue_close_releases_knotes_first_sample :
  releases_knotes_first sample_heap (kqueue_close sample_kq sample_heap).1 /\
  (kqueue_close sample_kq sample_heap).2 = ∅ /\
  length (kqueue_close sample_kq sample_heap).1 = 5%nat.
Proof.
  destruct (kqueue_close_releases_knotes_first sample_kq sample_heap)
    as (Hrel & Hempty & _).
  - apply (bool_decide_unpack _). vm_compute. exact I.
  - split; [exact Hrel |]. split; [exact Hempty |]. vm_compute. reflexivity.
Defined.

(** A wake for the knote of the quiet filter is discarded. *)
Lemma windows_kevent_copyout_discards_sample :
  (exists h',
     windows_kevent_copyout (EventBuf 0 0 4160) sample_kq 1 [stale_slot] 1
       sample_heap = Returned (0, [kevent_zero], h')) /\
  windows_kevent_copyout (EventBuf 0 0 4160) sample_kq 1 [stale_slot] 1
    sample_heap = Returned (0, [kevent_zero], sample_heap).
Proof.
  destruct (windows_kevent_copyout_discards (EventBuf 0 0 4160) sample_kq 1
              [stale_slot] 1 sample_heap
              (Knote (Kevent 9 (-3) EV_ADD 0 0 0) true) quiet_filter
              stale_slot [])
    as [Hret Hkeep]; [reflexivity | reflexivity | reflexivity
                      | simpl; lia | reflexivity |].
  split; [exact Hret |].
  rewrite (Hkeep eq_refl). vm_compute. reflexivity.
Defined.

(** A wake for the knote of the failing filter aborts. *)
Lemma windows_kevent_copyout_aborts_sample :
  windows_kevent_copyout (EventBuf 0 0 4128) sample_kq 1 [stale_slot] 1
    sample_heap = Aborted.
Proof.
  apply (windows_kevent_copyout_aborts (EventBuf 0 0 4128) sample_kq 1
           [stale_slot] 1 sample_heap
           (Knote (Kevent 8 (-2) EV_ADD 0 0 0) true) failing_filter
           stale_slot []); [reflexivity | reflexivity | reflexivity |].
  simpl. lia.
Defined.

(** The oneshot knote carries [EVFILT_READ] and is served by slot 0. *)
Lemma filter_index_complement_sample :
  filter_index (-1) = 0 /\
  is_Some (filter_slot (kq_filt sample_kq) (filter_index (-1))).
Proof.
  destruct (filter_index_complement (EventBuf 0 0 4096) sample_kq 1 1
              [stale_slot] sample_heap sample_oneshot eq_refl)
    as (Hidx & _ & Hrange & _).
  split; [exact Hidx |]. apply Hrange. simpl. lia.
Defined.

(** A call with [nevents = 0] for the oneshot knote returns 1 with the
    knote's event in the first slot. *)
Lemma windows_kevent_copyout_one_slot_sample :
  exists nret h',
    windows_kevent_copyout (EventBuf 0 0 4096) sample_kq 1 [stale_slot] 0
      sample_heap = Returned (nret, [kev sample_oneshot], h') /\
    (nret = 0 \/ nret = 1).
Proof.
  destruct windows_kevent_copyout_one_slot as (_ & _ & Hret & _).
  apply (Hret (EventBuf 0 0 4096) sample_kq 1 0 sample_heap sample_oneshot
           copy_filter stale_slot []); [reflexivity | reflexivity |].
  simpl. lia.
Defined.

(** Creation succeeds when both handles are created and the filters
    register, and fails with -1 when the semaphore cannot be created. *)
Lemma windows_kqueue_init_result_sample :
  (windows_kqueue_init sample_init_env (Kqueue 0 0 0 [])).1.2
    = Kqueue 100 200 0 [] /\
  (windows_kqueue_init sample_init_env_no_semaphore (Kqueue 0 0 0 [])).1.1
    = -1.
Proof.
  split.
  - destruct (windows_kqueue_init_result sample_init_env (Kqueue 0 0 0 []))
      as (_ & _ & _ & Hok).
    apply Hok. reflexivity.
  - destruct (windows_kqueue_init_result sample_init_env_no_semaphore
                (Kqueue 0 0 0 [])) as (_ & Hfail & _).
    apply Hfail. right. left. reflexivity.
Defined.

(** On a socket layer that behaves, the first creation leaves the
    technique trusted, and the repository's test passes. *)
Lemma peer_close_validated_before_trusted_sample :
  peer_close_trusted (kqueue_created sample_socket_env platform_start) = true /\
  test_peer_close_detection sample_socket_env = Passed.
Proof.
  destruct (peer_close_validated_before_trusted sample_socket_env)
    as (_ & Htrust & _ & _ & Htest).
  assert (Ht : peer_close_trusted
                 (kqueue_created sample_socket_env platform_start) = true).
  { apply Htrust. simpl. lia. }
  split; [exact Ht |]. apply Htest; [exact Ht | simpl; lia].
Defined.

(** * Further properties *)

(** ** The timeout handed to the completion port *)

(** The conversion for a timeout with whole seconds and nanoseconds in
    range; the seconds are first truncated to 32 bits. *)
Lemma windows_timeout_ms_whole_seconds ts :
  0 < tv_sec ts ->
  0 <= tv_nsec ts < 1000000000 ->
  windows_timeout_ms (Some ts) =
    (tv_sec ts `mod` 2 ^ 32) `div` 1000 + tv_nsec ts `div` 1000000.
Proof.
  intros Hs Hn. unfold windows_timeout_ms, Win32.to_DWORD, Win32.DWORD_MODULUS.
  destruct (Z.ltb_spec 0 (tv_sec ts)); [| lia].
  rewrite Z.quot_div_nonneg by lia. rewrite Z.add_0_l.
  pose proof (Z.mod_pos_bound (tv_sec ts) (2 ^ 32) eq_refl) as Ha.
  change (2 ^ 32) with 4294967296 in *.
  set (a := tv_sec ts `mod` 4294967296) in *.
  assert (Hq : 0 <= a `div` 1000 <= 4294967).
  { split; [apply Z.div_pos; lia |].
    apply Z.lt_succ_r, Z.div_lt_upper_bound; lia. }
  assert (Hm : 0 <= tv_nsec ts `div` 1000000 <= 999).
  { split; [apply Z.div_pos; lia |].
    apply Z.lt_succ_r, Z.div_lt_upper_bound; lia. }
  rewrite (Z.mod_small (a `div` 1000)) by lia.
  apply Z.mod_small. lia.
Qed.

(** X1.  For a timeout of at least one second with nanoseconds in range,
    the wait asks the completion port for the seconds (truncated to 32
    bits) divided by 1000, plus the whole milliseconds of the
    nanoseconds, and maps the port's answer to 1, 0 or -1. *)
Theorem windows_kevent_wait_asks_port os kq no ts :
  0 < tv_sec ts ->
  0 <= tv_nsec ts < 1000000000 ->
  windows_kevent_wait os kq no (Some ts) =
    let r := os (kq_iocp kq)
                ((tv_sec ts `mod` 2 ^ 32) `div` 1000
                 + tv_nsec ts `div` 1000000) in
    ((if gqcs_success r then 1
      else if gqcs_last_error r =? Win32.WAIT_TIMEOUT then 0 else -1),
     gqcs_packet r).
Proof.
  intros Hs Hn. rewrite windows_kevent_wait_timeout.
  rewrite (windows_timeout_ms_whole_seconds ts Hs Hn). reflexivity.
Qed.

(** X2.  A timeout without whole seconds is a poll: whatever its
    nanoseconds, the wait behaves as with the zero timeout. *)
Theorem windows_kevent_wait_subsecond_polls os kq no ts :
  tv_sec ts <= 0 ->
  windows_kevent_wait os kq no (Some ts) =
  windows_kevent_wait os kq no (Some (Timespec 0 0)).
Proof.
  intros Hs. rewrite !windows_kevent_wait_timeout.
  rewrite (windows_timeout_ms_no_seconds ts Hs). reflexivity.
Qed.

(** X3.  For a well-formed timeout the converted value never exceeds the
    requested duration in milliseconds, and it equals it only when that
    duration is below one millisecond. *)
Theorem windows_timeout_ms_never_longer ts :
  0 <= tv_sec ts ->
  0 <= tv_nsec ts < 1000000000 ->
  windows_timeout_ms (Some ts) <= timeout_ms_spec ts /\
  (windows_timeout_ms (Some ts) = timeout_ms_spec ts <-> timeout_ms_spec ts = 0).
Proof.
  intros Hs Hn. unfold timeout_ms_spec.
  rewrite Z.quot_div_nonneg by lia.
  assert (Hm : 0 <= tv_nsec ts `div` 1000000) by (apply Z.div_pos; lia).
  destruct (Z.eq_dec (tv_sec ts) 0) as [Hz | Hnz].
  - rewrite windows_timeout_ms_no_seconds by lia. rewrite Hz. lia.
  - rewrite windows_timeout_ms_whole_seconds by lia.
    pose proof (Z.mod_le (tv_sec ts) (2 ^ 32)) as Hle.
    pose proof (Z.mod_pos_bound (tv_sec ts) (2 ^ 32) eq_refl) as Ha.
    set (a := tv_sec ts `mod` 2 ^ 32) in *.
    pose proof (Z.mul_div_le a 1000) as Hd.
    assert (0 <= a `div` 1000) by (apply Z.div_pos; lia).
    lia.
Qed.

(** X4.  A timeout that is not [NULL] never turns into the infinite
    wait, whatever its seconds, as long as its nanoseconds are in range:
    the converted value stays below 4295967 milliseconds. *)
Theorem windows_timeout_ms_finite ts :
  0 <= tv_nsec ts < 1000000000 ->
  0 <= windows_timeout_ms (Some ts) <= 4295966 /\
  windows_timeout_ms (Some ts) <> windows_timeout_ms None.
Proof.
  intros Hn.
  assert (Hb : 0 <= windows_timeout_ms (Some ts) <= 4295966).
  { destruct (Z_lt_le_dec 0 (tv_sec ts)) as [Hs | Hs].
    - rewrite windows_timeout_ms_whole_seconds by lia.
      pose proof (Z.mod_pos_bound (tv_sec ts) (2 ^ 32) eq_refl) as Ha.
      change (2 ^ 32) with 4294967296 in *.
      set (a := tv_sec ts `mod` 4294967296) in *.
      assert (0 <= a `div` 1000 <= 4294967).
      { split; [apply Z.div_pos; lia |].
        apply Z.lt_succ_r, Z.div_lt_upper_bound; lia. }
      assert (0 <= tv_nsec ts `div` 1000000 <= 999).
      { split; [apply Z.div_pos; lia |].
        apply Z.lt_succ_r, Z.div_lt_upper_bound; lia. }
      lia.
    - rewrite windows_timeout_ms_no_seconds by lia. lia. }
  split; [exact Hb |].
  change (windows_timeout_ms None) with 4294967295. lia.
Qed.

(** ** What one copyout does to the knotes *)

(** X5.  A copyout that returns changes no knote but the one the packet
    names, and brings none to life: the live addresses stay as they were,
    less that of the named knote exactly when the event left in the first
    slot carries [EV_ONESHOT]. *)
Theorem windows_kevent_copyout_frame iocp_buf kq nready nevents eventlist
    (h : gmap Z knote) nret ev evl h' :
  windows_kevent_copyout iocp_buf kq nready eventlist nevents h
    = Returned (nret, ev :: evl, h') ->
  (forall p, p <> overlap iocp_buf -> h' !! p = h !! p) /\
  dom h' = (if has_flag (flags ev) EV_ONESHOT
            then dom h ∖ {[overlap iocp_buf]} else dom h).
Proof.
  intros Hc.
  apply windows_kevent_copyout_returned in Hc
    as (k & filt & slot & rest & Hk & _ & _ & _ & _ & Hevl & ->).
  cbv zeta in Hevl. injection Hevl as -> ->.
  split; [intros p Hp; by apply heap_after_lookup_ne |].
  assert (Hin : {[overlap iocp_buf]} ∪ dom h = dom h).
  { apply subseteq_union_1_L, singleton_subseteq_l, elem_of_dom. eauto. }
  unfold heap_after, knote_disable, knote_delete.
  destruct (has_flag _ EV_ONESHOT), (has_flag _ EV_DISPATCH);
    rewrite ?dom_delete_L, ?dom_alter_L, ?dom_insert_L, Hin; reflexivity.
Qed.

(** X6.  The flags of the event are acted on before the event is
    counted: when the filter's copyout succeeds and leaves an event with
    a zero [filter] field, the call returns 0, and yet the knote is
    deleted if that event carries [EV_ONESHOT], and disabled if it
    carries [EV_DISPATCH] only. *)
Theorem windows_kevent_copyout_discarded_flags iocp_buf kq nready nevents
    (h : gmap Z knote) k filt slot rest :
  h !! overlap iocp_buf = Some k ->
  filter_slot (kq_filt kq) (filter_index (filter (kev k))) = Some filt ->
  0 <= (kf_copyout filt slot k iocp_buf).1.1 ->
  filter (kf_copyout filt slot k iocp_buf).1.2 = 0 ->
  exists h',
    windows_kevent_copyout iocp_buf kq nready (slot :: rest) nevents h =
      Returned (0, (kf_copyout filt slot k iocp_buf).1.2 :: rest, h') /\
    (has_flag (flags (kf_copyout filt slot k iocp_buf).1.2) EV_ONESHOT = true ->
     knote_deleted h' (overlap iocp_buf)) /\
    (has_flag (flags (kf_copyout filt slot k iocp_buf).1.2) EV_ONESHOT = false ->
     has_flag (flags (kf_copyout filt slot k iocp_buf).1.2) EV_DISPATCH = true ->
     knote_disabled h' (overlap iocp_buf)).
Proof.
  intros Hk Hf Hrv Hev.
  pose proof (windows_kevent_copyout_defined iocp_buf kq nready nevents
                (slot :: rest) h k filt slot rest Hk Hf eq_refl) as Hc.
  cbv zeta in Hc.
  destruct (Z.ltb_spec (kf_copyout filt slot k iocp_buf).1.1 0); [lia |].
  rewrite Hev in Hc. simpl in Hc.
  eexists. split; [exact Hc |].
  destruct (windows_kevent_copyout_event_flags _ _ _ _ _ _ _ _ _ _ Hc)
    as (Hone & Hdis & _).
  split; assumption.
Qed.

(** X7.  Once a copyout has returned with an event that carries
    [EV_ONESHOT], the same packet cannot be handed to the copyout again:
    the knote it names is gone, and the call is undefined whatever its
    other arguments. *)
Theorem windows_kevent_copyout_replay iocp_buf kq nready nevents eventlist
    (h : gmap Z knote) nret ev evl h' :
  windows_kevent_copyout iocp_buf kq nready eventlist nevents h
    = Returned (nret, ev :: evl, h') ->
  has_flag (flags ev) EV_ONESHOT = true ->
  forall kq2 nready2 eventlist2 nevents2,
    windows_kevent_copyout iocp_buf kq2 nready2 eventlist2 nevents2 h'
      = Undefined.
Proof.
  intros Hc Hone kq2 nready2 eventlist2 nevents2.
  apply windows_kevent_copyout_stale.
  destruct (windows_kevent_copyout_event_flags _ _ _ _ _ _ _ _ _ _ Hc)
    as (Hdel & _).
  exact (Hdel Hone).
Qed.

(** ** Filter tags and table slots *)

(** X8.  The map from filter tags to table slots is one to one and is
    its own inverse; the slot at position [i] of the table is the one
    the tag [-(i+1)] selects; the seven BSD tags select the slots 0, 1,
    3, 4, 5, 6 and 9. *)
Theorem filter_index_one_to_one :
  (forall f g, filter_index f = filter_index g -> f = g) /\
  (forall f, filter_index (filter_index f) = f) /\
  (forall (tbl : list filter_ops) (i : nat),
     filter_slot tbl (filter_index (- Z.of_nat i - 1)) = tbl !! i) /\
  map filter_index
      [EVFILT_READ; EVFILT_WRITE; EVFILT_VNODE; EVFILT_PROC;
       EVFILT_SIGNAL; EVFILT_TIMER; EVFILT_USER]
    = [0; 1; 3; 4; 5; 6; 9].
Proof.
  split; [intros f g; rewrite !filter_index_eq; lia |].
  split; [intros f; rewrite !filter_index_eq; lia |].
  split; [| reflexivity].
  intros tbl i. unfold filter_slot. rewrite filter_index_eq.
  destruct (Z.ltb_spec (- (- Z.of_nat i - 1) - 1) 0); [lia |].
  f_equal. lia.
Qed.

(** ** Creation, release and the handles *)

(** X9.  [windows_kqueue_init] stops at the first step that fails: the
    semaphore is asked for only once the completion port exists, and the
    filters are registered only once both handles exist.  It never
    closes a handle: when the semaphore cannot be created, it returns -1
    with the completion port still open and stored in the kqueue. *)
Theorem windows_kqueue_init_stops_at_failure env kq :
  let r := windows_kqueue_init env kq in
  Call_CreateIoCompletionPort ∈ r.2 /\
  (Call_CreateSemaphore ∈ r.2 <->
     env_CreateIoCompletionPort env <> Win32.NULL) /\
  (Call_filter_register_all ∈ r.2 <->
     env_CreateIoCompletionPort env <> Win32.NULL /\
     env_CreateSemaphore env <> Win32.NULL) /\
  (forall hd, Call_CloseHandle hd ∉ r.2) /\
  (env_CreateIoCompletionPort env <> Win32.NULL ->
   env_CreateSemaphore env = Win32.NULL ->
   r.1.1 = -1 /\ kq_iocp r.1.2 = env_CreateIoCompletionPort env).
Proof.
  unfold windows_kqueue_init. cbv zeta. simpl.
  destruct (Z.eqb_spec (env_CreateIoCompletionPort env) Win32.NULL) as [Hp | Hp];
    simpl; [| destruct (Z.eqb_spec (env_CreateSemaphore env) Win32.NULL)
                as [Hs | Hs]; simpl;
              [| destruct (env_filter_register_all env _) as [rc kq3]; simpl;
                 destruct (rc <? 0); simpl]];
    repeat setoid_rewrite elem_of_cons; repeat setoid_rewrite elem_of_nil;
    (repeat split; try intros hd; intuition (try discriminate; try congruence)).
Qed.

(** X10.  Over the life of a kqueue, from a creation that succeeds to
    its release, five calls are made, in this order: the two handles are
    created, the filters registered, the loop destroyed and the kqueue
    freed.  Neither handle is closed. *)
Theorem windows_kqueue_lifetime_calls env kq :
  (windows_kqueue_init env kq).1.1 = 0 ->
  let kq' := (windows_kqueue_init env kq).1.2 in
  (windows_kqueue_init env kq).2 ++ windows_kqueue_free kq' =
    [Call_CreateIoCompletionPort; Call_CreateSemaphore;
     Call_filter_register_all; Call_evt_destroy (kq_loop kq'); Call_free_kq] /\
  kq_loop kq' =
    kq_loop (env_filter_register_all env
               (Kqueue (env_CreateIoCompletionPort env)
                       (env_CreateSemaphore env) (kq_loop kq) (kq_filt kq))).2 /\
  env_CreateIoCompletionPort env <> Win32.NULL /\
  env_CreateSemaphore env <> Win32.NULL /\
  forall hd,
    Call_CloseHandle hd ∉
      (windows_kqueue_init env kq).2 ++ windows_kqueue_free kq'.
Proof.
  unfold windows_kqueue_init, windows_kqueue_free. cbv zeta. simpl.
  destruct (Z.eqb_spec (env_CreateIoCompletionPort env) Win32.NULL) as [Hp | Hp];
    simpl; [discriminate |].
  destruct (Z.eqb_spec (env_CreateSemaphore env) Win32.NULL) as [Hs | Hs];
    simpl; [discriminate |].
  destruct (env_filter_register_all env _) as [rc kq3]. simpl.
  destruct (rc <? 0); simpl; [discriminate |].
  intros _. repeat split; try assumption.
  intros hd. rewrite !elem_of_cons, elem_of_nil.
  intuition (try discriminate).
Qed.

(** ** Registering filters *)

Lemma windows_filter_init_in_range refs (c : nat) kf :
  (c < length refs)%nat ->
  windows_filter_init (KqueueRefs refs (Z.of_nat c)) kf =
    Returned (0, KqueueRefs (<[c := kf]> refs) (Z.of_nat (S c))).
Proof.
  intros Hc. unfold windows_filter_init. simpl.
  destruct (Z.leb_spec 0 (Z.of_nat c)); [| lia].
  destruct (Z.ltb_spec (Z.of_nat c) (Z.of_nat (length refs))); [| lia].
  simpl. rewrite Nat2Z.id. do 3 f_equal. lia.
Qed.

Lemma windows_filter_init_out_of_range kq kf :
  kq_filt_count kq < 0 \/ Z.of_nat (length (kq_filt_ref kq)) <= kq_filt_count kq ->
  windows_filter_init kq kf = Undefined.
Proof.
  intros Hout. unfold windows_filter_init.
  destruct (Z.leb_spec 0 (kq_filt_count kq)); [| reflexivity].
  destruct (Z.ltb_spec (kq_filt_count kq) (Z.of_nat (length (kq_filt_ref kq))));
    [lia | reflexivity].
Qed.

Lemma windows_filter_init_all_in_range kfs :
  forall refs (c : nat),
    (c + length kfs <= length refs)%nat ->
    windows_filter_init_all (KqueueRefs refs (Z.of_nat c)) kfs =
      Returned (KqueueRefs (take c refs ++ kfs ++ drop (c + length kfs) refs)
                           (Z.of_nat (c + length kfs))).
Proof.
  induction kfs as [| kf kfs IH]; intros refs c Hlen; simpl in *.
  - rewrite Nat.add_0_r, take_drop. reflexivity.
  - rewrite windows_filter_init_in_range by lia.
    rewrite IH by (rewrite length_insert; lia).
    rewrite (take_S_r _ c kf) by (apply list_lookup_insert_eq; lia).
    rewrite take_insert_ge by lia.
    rewrite drop_insert_lt by lia.
    rewrite <- app_assoc. simpl.
    do 3 f_equal; [do 3 f_equal |]; lia.
Qed.

(** X11.  Registering the filters [kfs] one after the other, from a
    count [c] that leaves room for all of them, stores them in the slots
    [c], [c+1], ... in the order of registration, leaves every other
    slot as it was, and ends with the count advanced by their number. *)
Theorem windows_filter_init_all_fills kq kfs :
  0 <= kq_filt_count kq ->
  kq_filt_count kq + Z.of_nat (length kfs) <= Z.of_nat (length (kq_filt_ref kq)) ->
  let c := Z.to_nat (kq_filt_count kq) in
  windows_filter_init_all kq kfs =
    Returned (KqueueRefs
                (take c (kq_filt_ref kq) ++ kfs
                 ++ drop (c + length kfs) (kq_filt_ref kq))
                (kq_filt_count kq + Z.of_nat (length kfs))).
Proof.
  intros Hc Hroom c. destruct kq as [refs count]. simpl in *.
  replace count with (Z.of_nat c) at 1 by (subst c; lia).
  rewrite windows_filter_init_all_in_range by (subst c; lia).
  do 2 f_equal. subst c. lia.
Qed.

(** X12.  The registration has no bounds check: registering at least one
    filter from a negative count, or more filters than the slots left,
    is undefined. *)
Theorem windows_filter_init_all_overflow kfs :
  forall kq,
    kfs <> [] ->
    kq_filt_count kq < 0 \/
    Z.of_nat (length (kq_filt_ref kq)) < kq_filt_count kq + Z.of_nat (length kfs) ->
    windows_filter_init_all kq kfs = Undefined.
Proof.
  induction kfs as [| kf kfs IH]; intros kq Hne Hout; [congruence |].
  simpl.
  destruct (Z_lt_le_dec (kq_filt_count kq) 0) as [Hneg | Hpos].
  { rewrite windows_filter_init_out_of_range by lia. reflexivity. }
  destruct (Z_lt_le_dec (kq_filt_count kq) (Z.of_nat (length (kq_filt_ref kq))))
    as [Hin | Hfull].
  2:{ rewrite windows_filter_init_out_of_range by lia. reflexivity. }
  destruct kq as [refs count]. simpl in *.
  replace count with (Z.of_nat (Z.to_nat count)) by lia.
  rewrite windows_filter_init_in_range by lia.
  apply IH.
  - intros ->. simpl in Hout. lia.
  - simpl. rewrite length_insert. right. lia.
Qed.

(** ** The argument loop of the test driver *)

Lemma enable_test_names arg tests :
  map ut_name (enable_test arg tests).1 = map ut_name tests.
Proof.
  induction tests as [| t tests IH]; simpl; [reflexivity |].
  destruct (String.eqb arg (ut_name t)); simpl; [reflexivity |].
  destruct (enable_test arg tests) as [tests' found]. simpl in *.
  by rewrite IH.
Qed.

Lemma enable_test_found arg tests :
  (enable_test arg tests).2 = true <-> arg ∈ map ut_name tests.
Proof.
  induction tests as [| t tests IH]; simpl.
  - split; [discriminate | intros Hin; by apply elem_of_nil in Hin].
  - rewrite elem_of_cons.
    destruct (String.eqb_spec arg (ut_name t)) as [Heq | Hne]; simpl.
    + tauto.
    + destruct (enable_test arg tests) as [tests' found]. simpl in *.
      rewrite IH. tauto.
Qed.

Lemma enable_test_nodup arg tests :
  NoDup (map ut_name tests) ->
  (enable_test arg tests).1 = map (enable_if_named arg) tests.
Proof.
  induction tests as [| t tests IH]; simpl; [reflexivity |].
  intros Hnd. apply NoDup_cons in Hnd as [Hnotin Hnd].
  unfold enable_if_named at 1.
  destruct (String.eqb_spec arg (ut_name t)) as [Heq | Hne]; simpl.
  - f_equal. clear IH Hnd. subst arg.
    induction tests as [| t' tests IH]; simpl; [reflexivity |].
    simpl in Hnotin. apply not_elem_of_cons in Hnotin as [Hne Hnotin].
    unfold enable_if_named at 1.
    destruct (String.eqb_spec (ut_name t) (ut_name t')); [congruence |].
    f_equal. by apply IH.
  - destruct (enable_test arg tests) as [tests' found]. simpl in *.
    f_equal. by apply IH.
Qed.

Lemma enable_if_named_names arg tests :
  map ut_name (map (enable_if_named arg) tests) = map ut_name tests.
Proof.
  induction tests as [| t tests IH]; simpl; [reflexivity |].
  rewrite IH. unfold enable_if_named.
  destruct (String.eqb arg (ut_name t)); reflexivity.
Qed.

(** Arguments that all name a test are all accepted. *)
Lemma parse_args_valid args :
  forall tests out,
    NoDup (map ut_name tests) ->
    Forall (fun a => a ∈ map ut_name tests) args ->
    parse_args args tests out =
      Parse_done (foldl (fun ts a => map (enable_if_named a) ts) tests args)
                 (out ++ map enabled_line args).
Proof.
  induction args as [| arg args IH]; intros tests out Hnd Hall; simpl.
  - by rewrite app_nil_r.
  - apply Forall_cons in Hall as [Harg Hall].
    pose proof (proj2 (enable_test_found arg tests) Harg) as Hfound.
    pose proof (enable_test_nodup arg tests Hnd) as Hmap.
    destruct (enable_test arg tests) as [tests' found]. simpl in *.
    subst found tests'.
    rewrite IH.
    + by rewrite <- app_assoc.
    + by rewrite enable_if_named_names.
    + by rewrite enable_if_named_names.
Qed.

(** The first argument that names no test ends the loop. *)
Lemma parse_args_invalid good :
  forall tests out bad rest,
    Forall (fun a => a ∈ map ut_name tests) good ->
    bad ∉ map ut_name tests ->
    parse_args (good ++ bad :: rest) tests out =
      Parse_exit 1 (out ++ map enabled_line good ++ [invalid_line bad]).
Proof.
  induction good as [| arg good IH]; intros tests out bad rest Hall Hbad; simpl.
  - pose proof (enable_test_found bad tests) as Hfound.
    destruct (enable_test bad tests) as [tests' found]. simpl in *.
    destruct found; [exfalso; apply Hbad; by apply Hfound | reflexivity].
  - apply Forall_cons in Hall as [Harg Hall].
    pose proof (proj2 (enable_test_found arg tests) Harg) as Hfound.
    pose proof (enable_test_names arg tests) as Hnames.
    destruct (enable_test arg tests) as [tests' found]. simpl in *.
    subst found. rewrite IH.
    + by rewrite <- app_assoc.
    + by rewrite Hnames.
    + by rewrite Hnames.
Qed.

Lemma disable_tests_names tests :
  map ut_name (disable_tests tests) = map ut_name tests.
Proof.
  unfold disable_tests. rewrite map_map. reflexivity.
Qed.

Lemma enabled_funcs_enable_if_named arg args tests :
  map ut_func
    (List.filter (fun t => negb (ut_enabled t =? 0)
                           || bool_decide (ut_name t ∈ args))
       (map (enable_if_named arg) tests)) =
  map ut_func
    (List.filter (fun t => negb (ut_enabled t =? 0)
                           || bool_decide (ut_name t ∈ arg :: args))
       tests).
Proof.
  induction tests as [| t tests IH]; simpl; [reflexivity |].
  change (enable_if_named arg t)
    with (if String.eqb arg (ut_name t)
          then UnitTest (ut_name t) 1 (ut_func t) else t).
  destruct (String.eqb_spec arg (ut_name t)) as [Heq | Hne]; simpl.
  - rewrite (bool_decide_eq_true_2 (ut_name t ∈ arg :: args))
      by (rewrite elem_of_cons; auto).
    rewrite orb_true_r. simpl. by rewrite IH.
  - rewrite (bool_decide_ext (ut_name t ∈ arg :: args) (ut_name t ∈ args))
      by (rewrite elem_of_cons; intuition congruence).
    destruct (negb (ut_enabled t =? 0) || bool_decide (ut_name t ∈ args));
      simpl; by rewrite IH.
Qed.

Lemma enabled_funcs_foldl args :
  forall tests,
    enabled_funcs (foldl (fun ts a => map (enable_if_named a) ts) tests args) =
    map ut_func
      (List.filter (fun t => negb (ut_enabled t =? 0)
                             || bool_decide (ut_name t ∈ args))
         tests).
Proof.
  induction args as [| arg args IH]; intros tests; simpl.
  - unfold enabled_funcs. f_equal. apply List.filter_ext. intros t.
    symmetry. apply orb_false_r.
  - rewrite IH. apply enabled_funcs_enable_if_named.
Qed.

Lemma enabled_funcs_disabled args tests :
  map ut_func
    (List.filter (fun t => negb (ut_enabled t =? 0)
                           || bool_decide (ut_name t ∈ args))
       (disable_tests tests)) =
  map ut_func (named_by args tests).
Proof.
  unfold named_by.
  induction tests as [| t tests IH]; simpl; [reflexivity |].
  destruct (bool_decide (ut_name t ∈ args)); simpl; by rewrite IH.
Qed.

Lemma tests_table_names_NoDup HAVE_EVFILT_USER :
  NoDup (map ut_name (tests_table HAVE_EVFILT_USER)).
Proof.
  destruct HAVE_EVFILT_USER; apply (bool_decide_unpack _); vm_compute;
    exact I.
Qed.

(** [main] called with arguments that all name a test. *)
Lemma main_named HAVE_EVFILT_USER argv0 arg args kqfd :
  Forall (fun a => a ∈ map ut_name (tests_table HAVE_EVFILT_USER)) (arg :: args) ->
  main HAVE_EVFILT_USER (argv0 :: arg :: args) kqfd =
    if kqfd <? 0
    then Main_died "kqueue()" (map enabled_line (arg :: args)) tests_always
    else Main_exit 0 (map enabled_line (arg :: args))
           (tests_always
            ++ map ut_func (named_by (arg :: args) (tests_table HAVE_EVFILT_USER))
            ++ [Run_ev_receipt]).
Proof.
  intros Hall. unfold main.
  replace (1 <? Z.of_nat (length (argv0 :: arg :: args))) with true
    by (symmetry; apply Z.ltb_lt; simpl length; lia).
  cbv zeta. change (tail (argv0 :: arg :: args)) with (arg :: args).
  rewrite parse_args_valid.
  - rewrite enabled_funcs_foldl, enabled_funcs_disabled. reflexivity.
  - rewrite disable_tests_names. apply tests_table_names_NoDup.
  - by rewrite disable_tests_names.
Qed.

(** ** What the test driver runs *)

(** X13.  Called with arguments that all name a test of its table,
    [main] prints one line per argument and runs, between the six tests
    it always runs and the receipt test, the table's tests that the
    arguments name, in the order of the table; without arguments it runs
    the whole table.  If [kqueue()] fails it dies after the six tests it
    always runs. *)
Theorem main_runs_selected HAVE_EVFILT_USER argv0 args kqfd :
  Forall (fun a => a ∈ map ut_name (tests_table HAVE_EVFILT_USER)) args ->
  main HAVE_EVFILT_USER (argv0 :: args) kqfd =
    if kqfd <? 0
    then Main_died "kqueue()" (map enabled_line args) tests_always
    else Main_exit 0 (map enabled_line args)
           (tests_always
            ++ map ut_func
                 (match args with
                  | [] => tests_table HAVE_EVFILT_USER
                  | _ => named_by args (tests_table HAVE_EVFILT_USER)
                  end)
            ++ [Run_ev_receipt]).
Proof.
  intros Hall. destruct args as [| arg args].
  - unfold main. simpl. destruct (kqfd <? 0); [reflexivity |].
    destruct HAVE_EVFILT_USER; reflexivity.
  - by apply main_named.
Qed.

(** X14.  The first argument that names no test of the table makes
    [main] exit with status 1 before any test is run, whatever follows
    it; it has then printed one line for each argument before that one,
    and the line that reports it. *)
Theorem main_rejects_unknown HAVE_EVFILT_USER argv0 good bad rest kqfd :
  Forall (fun a => a ∈ map ut_name (tests_table HAVE_EVFILT_USER)) good ->
  bad ∉ map ut_name (tests_table HAVE_EVFILT_USER) ->
  main HAVE_EVFILT_USER (argv0 :: good ++ bad :: rest) kqfd =
    Main_exit 1 (map enabled_line good ++ [invalid_line bad]) [].
Proof.
  intros Hall Hbad. unfold main.
  replace (1 <? Z.of_nat (length (argv0 :: good ++ bad :: rest))) with true.
  2:{ symmetry. apply Z.ltb_lt. simpl length. rewrite length_app. simpl. lia. }
  cbv zeta. change (tail (argv0 :: good ++ bad :: rest)) with (good ++ bad :: rest).
  rewrite parse_args_invalid; [reflexivity | |];
    by rewrite disable_tests_names.
Qed.

(** X15.  Which tests run depends on which names the arguments contain,
    not on their order or on how often a name is given. *)
Theorem main_order_insensitive HAVE_EVFILT_USER argv0 argv0' args args' kqfd :
  Forall (fun a => a ∈ map ut_name (tests_table HAVE_EVFILT_USER)) args ->
  Forall (fun a => a ∈ map ut_name (tests_table HAVE_EVFILT_USER)) args' ->
  args <> [] ->
  (forall a, a ∈ args <-> a ∈ args') ->
  main_ran (main HAVE_EVFILT_USER (argv0 :: args) kqfd) =
  main_ran (main HAVE_EVFILT_USER (argv0' :: args') kqfd).
Proof.
  intros Hall Hall' Hne Hsame.
  destruct args as [| arg args]; [congruence |].
  destruct args' as [| arg' args'].
  { exfalso. apply (not_elem_of_nil arg), Hsame, elem_of_cons. auto. }
  rewrite !main_named by assumption.
  assert (Hnamed : named_by (arg :: args) (tests_table HAVE_EVFILT_USER) =
                   named_by (arg' :: args') (tests_table HAVE_EVFILT_USER)).
  { unfold named_by. apply List.filter_ext. intros t.
    apply bool_decide_ext, Hsame. }
  rewrite Hnamed. destruct (kqfd <? 0); reflexivity.
Qed.

(** X16.  The peer-close test passes exactly when the pair can be
    created, the fresh pair reports nothing, the peer can be closed, and
    the peek returns zero bytes in case the surviving end reports
    readiness; when the surviving end reports nothing, the peek is not
    made and the test passes. *)
Theorem test_peer_close_detection_passes env :
  test_peer_close_detection env = Passed <->
  0 <= env_socketpair env /\ env_poll_fresh env <= 0 /\
  0 <= env_close_peer env /\
  (0 < env_poll_closed env -> env_recv_peek env = 0).
Proof.
  unfold test_peer_close_detection.
  destruct (Z.ltb_spec (env_socketpair env) 0);
    [split; [discriminate | lia] |].
  destruct (Z.ltb_spec 0 (env_poll_fresh env));
    [split; [discriminate | lia] |].
  destruct (Z.ltb_spec (env_close_peer env) 0);
    [split; [discriminate | lia] |].
  destruct (Z.ltb_spec 0 (env_poll_closed env)); [| split; [lia | reflexivity]].
  destruct (Z.eqb_spec (env_recv_peek env) 0); simpl;
    [split; [lia | reflexivity] | split; [discriminate | lia]].
Qed.

(** ** The further properties at sample inputs *)

(** A port that reports success only when asked to wait 252 ms is asked
    just that for a timeout of 2500 s and a quarter of a second. *)
Lemma windows_kevent_wait_asks_port_sample :
  windows_kevent_wait
    (fun _ ms => GqcsResult (ms =? 252) (EventBuf 0 0 4096) 0)
    sample_kq 1 (Some (Timespec 2500 250000000)) = (1, EventBuf 0 0 4096).
Proof.
  rewrite windows_kevent_wait_asks_port; [reflexivity | simpl; lia | simpl; lia].
Defined.

Lemma windows_kevent_wait_subsecond_polls_sample :
  windows_kevent_wait
    (fun _ ms => GqcsResult false (EventBuf 0 0 0) (if ms =? 0 then 258 else 0))
    sample_kq 1 (Some (Timespec 0 999999999)) =
  windows_kevent_wait
    (fun _ ms => GqcsResult false (EventBuf 0 0 0) (if ms =? 0 then 258 else 0))
    sample_kq 1 (Some (Timespec 0 0)).
Proof.
  apply windows_kevent_wait_subsecond_polls. simpl. lia.
Defined.

Lemma windows_timeout_ms_never_longer_sample :
  windows_timeout_ms (Some (Timespec 3 0)) <= timeout_ms_spec (Timespec 3 0) /\
  (windows_timeout_ms (Some (Timespec 3 0)) = timeout_ms_spec (Timespec 3 0)
   <-> timeout_ms_spec (Timespec 3 0) = 0).
Proof.
  apply (windows_timeout_ms_never_longer (Timespec 3 0)); simpl; lia.
Defined.

Lemma windows_timeout_ms_finite_sample :
  0 <= windows_timeout_ms (Some (Timespec (2 ^ 40 + 5000) 5)) <= 4295966 /\
  windows_timeout_ms (Some (Timespec (2 ^ 40 + 5000) 5))
    <> windows_timeout_ms None.
Proof.
  apply (windows_timeout_ms_finite (Timespec (2 ^ 40 + 5000) 5)). simpl. lia.
Defined.

Lemma windows_kevent_copyout_frame_sample :
  (forall p, p <> 4096 -> delete 4096 sample_heap !! p = sample_heap !! p) /\
  dom (delete 4096 sample_heap) = dom sample_heap ∖ {[4096]}.
Proof.
  apply (windows_kevent_copyout_frame (EventBuf 0 0 4096) sample_kq 1 1
           [stale_slot] sample_heap 1 (kev sample_oneshot) []
           (delete 4096 sample_heap)).
  vm_compute. reflexivity.
Defined.

Lemma windows_kevent_copyout_discarded_flags_sample :
  exists h',
    windows_kevent_copyout (EventBuf 0 0 4096)
      (Kqueue 1 2 0 [flags_only_filter]) 1 [stale_slot] 1 sample_heap =
      Returned (0, [Kevent 0 0 17 0 0 0], h') /\
    knote_deleted h' 4096.
Proof.
  destruct (windows_kevent_copyout_discarded_flags (EventBuf 0 0 4096)
              (Kqueue 1 2 0 [flags_only_filter]) 1 1 sample_heap
              sample_oneshot flags_only_filter stale_slot [])
    as (h' & Hc & Hdel & _);
    [reflexivity | reflexivity | simpl; lia | reflexivity |].
  exists h'. split; [exact Hc |]. apply Hdel. reflexivity.
Defined.

Lemma windows_kevent_copyout_replay_sample :
  windows_kevent_copyout (EventBuf 0 0 4096) sample_kq 1 [stale_slot] 1
    (delete 4096 sample_heap) = Undefined.
Proof.
  apply (windows_kevent_copyout_replay (EventBuf 0 0 4096) sample_kq 1 1
           [stale_slot] sample_heap 1 (kev sample_oneshot) []
           (delete 4096 sample_heap));
    [vm_compute; reflexivity | reflexivity].
Defined.

Lemma windows_kqueue_lifetime_calls_sample :
  (windows_kqueue_init sample_init_env (Kqueue 0 0 0 [])).2
  ++ windows_kqueue_free (Kqueue 100 200 0 []) =
    [Call_CreateIoCompletionPort; Call_CreateSemaphore;
     Call_filter_register_all; Call_evt_destroy 0; Call_free_kq].
Proof.
  destruct (windows_kqueue_lifetime_calls sample_init_env (Kqueue 0 0 0 []))
    as (Hcalls & _); [reflexivity |].
  exact Hcalls.
Defined.

Lemma windows_filter_init_all_fills_sample :
  windows_filter_init_all (KqueueRefs [0; 0; 0; 0] 1) [11; 22] =
    Returned (KqueueRefs [0; 11; 22; 0] 3).
Proof.
  apply (windows_filter_init_all_fills (KqueueRefs [0; 0; 0; 0] 1) [11; 22]);
    simpl; lia.
Defined.

Lemma windows_filter_init_all_overflow_sample :
  windows_filter_init_all (KqueueRefs [0; 0] 1) [11; 22] = Undefined.
Proof.
  apply windows_filter_init_all_overflow; [discriminate |].
  right. simpl. lia.
Defined.

Lemma main_runs_selected_sample :
  main true ["kqtest"; "timer"; "socket"] 3 =
    Main_exit 0 ["enabled test: timer"; "enabled test: socket"]
      (tests_always ++ [Run_evfilt_read; Run_evfilt_timer] ++ [Run_ev_receipt]).
Proof.
  rewrite (main_runs_selected true "kqtest" ["timer"; "socket"] 3);
    [reflexivity |].
  repeat constructor; apply (bool_decide_unpack _); vm_compute; exact I.
Defined.

Lemma main_rejects_unknown_sample :
  main false ["kqtest"; "socket"; "proc"; "timer"] 3 =
    Main_exit 1 ["enabled test: socket"; "ERROR: invalid option: proc"] [].
Proof.
  apply (main_rejects_unknown false "kqtest" ["socket"] "proc" ["timer"] 3).
  - repeat constructor; apply (bool_decide_unpack _); vm_compute; exact I.
  - apply (bool_decide_unpack _); vm_compute; exact I.
Defined.

Lemma main_order_insensitive_sample :
  main_ran (main true ["kqtest"; "timer"; "socket"] 3) =
  main_ran (main true ["./kqtest"; "socket"; "timer"; "socket"] 3).
Proof.
  apply main_order_insensitive.
  - repeat constructor; apply (bool_decide_unpack _); vm_compute; exact I.
  - repeat constructor; apply (bool_decide_unpack _); vm_compute; exact I.
  - discriminate.
  - intros a. rewrite !elem_of_cons, elem_of_nil. tauto.
Defined.
